(** * simple_logger: a shallow embedding of [logger.hpp]

    The header declares one class, [Logger], whose members are all static:
    two pieces of process-wide configuration ([stream_type_], [log_type_]),
    two configuration calls ([SetStream], [SetLogType]) and four emit calls
    ([LogInfo], [LogDebug], [LogError], [LogSuccess]) that print their
    arguments through the variadic template [LogRecursive].

    The embedding keeps the configuration and everything an emit call can
    touch (standard output, standard error, the files on disk, the system
    clock) in one record, [World]; every member function is a total function
    on worlds. *)

From Stdlib Require Import ZArith Ascii String List Lia.
From stdpp Require Import base decidable countable gmap strings list pretty.

Local Open Scope string_scope.
Local Open Scope Z_scope.

(* stdpp blocks [simpl] on string append; the proofs below compute with it. *)
#[local] Arguments String.append !_ _ / : simpl nomatch.

(** ** Enumerations *)

Inductive StreamType : Type := NONE | CONSOLE | FILE.

Inductive LogType : Type := INFO | DEBUG | SUCCESS | ERROR | ALL.

#[global] Instance StreamType_eq_dec : EqDecision StreamType.
Proof. solve_decision. Defined.

#[global] Instance LogType_eq_dec : EqDecision LogType.
Proof. solve_decision. Defined.

Definition LogType_to_nat (t : LogType) : nat :=
  match t with
  | INFO => 0 | DEBUG => 1 | SUCCESS => 2 | ERROR => 3 | ALL => 4
  end%nat.

Definition LogType_of_nat (n : nat) : LogType :=
  match n with
  | 0 => INFO | 1 => DEBUG | 2 => SUCCESS | 3 => ERROR | _ => ALL
  end%nat.

#[global] Instance LogType_countable : Countable LogType.
Proof.
  apply (inj_countable' LogType_to_nat LogType_of_nat).
  intros []; reflexivity.
Defined.

(** The public constants of the class. *)
Definition console : StreamType := CONSOLE.
Definition file : StreamType := FILE.

Definition info : LogType := INFO.
Definition debug : LogType := DEBUG.
Definition success : LogType := SUCCESS.
Definition error : LogType := ERROR.
Definition all : LogType := ALL.

(** ** Text of the inserted values

    [LogRecursive] accepts any argument type that has an [operator<<] into
    the stream.  The class [Insertable] is that capability: the characters
    the insertion produces.  A call's argument pack is a list of values,
    each packed with its type and its instance. *)

Class Insertable (T : Type) : Type := text_of : T -> string.

Record Item : Type := Arg {
  arg_type : Type;
  arg_insertable : Insertable arg_type;
  arg_value : arg_type
}.
Arguments Arg {arg_type arg_insertable} arg_value.

Definition item_text (i : Item) : string :=
  @text_of (arg_type i) (arg_insertable i) (arg_value i).

(** [const char*]: the characters up to the terminator. *)
#[global] Instance Insertable_cstr : Insertable string := fun s => s.

(** [int]: decimal digits, with a minus sign when negative. *)
#[global] Instance Insertable_int : Insertable Z := fun n => pretty n.

(** *** Broken-down time and [std::put_time]

    [CurrentTime] hands [gmtime]'s result and a format to [std::put_time];
    the characters appear when the returned object is inserted.  [gmtime]
    and the format conversions belong to the C library; they are written
    out here for the proleptic Gregorian calendar, UTC, no leap seconds. *)

Record tm : Type := mk_tm {
  tm_sec : Z;
  tm_min : Z;
  tm_hour : Z;
  tm_mday : Z;
  tm_mon : Z;   (* months since January, 0..11 *)
  tm_year : Z   (* years since 1900 *)
}.

Definition gmtime (t : Z) : tm :=
  let days := t / 86400 in
  let rem := t mod 86400 in
  let z := days + 719468 in
  let era := z / 146097 in
  let doe := z - era * 146097 in
  let yoe := (doe - doe / 1460 + doe / 36524 - doe / 146096) / 365 in
  let y := yoe + era * 400 in
  let doy := doe - (365 * yoe + yoe / 4 - yoe / 100) in
  let mp := (5 * doy + 2) / 153 in
  let d := doy - (153 * mp + 2) / 5 + 1 in
  let m := if mp <? 10 then mp + 3 else mp - 9 in
  let year := if m <=? 2 then y + 1 else y in
  {| tm_sec := rem mod 60;
     tm_min := (rem mod 3600) / 60;
     tm_hour := rem / 3600;
     tm_mday := d;
     tm_mon := m - 1;
     tm_year := year - 1900 |}.

(** Two decimal digits, zero padded: the width of [%m %d %H %M %S]. *)
Definition pad2 (n : Z) : string :=
  if n <? 10 then "0" +:+ pretty n else pretty n.

Definition conversion (c : ascii) (t : tm) : string :=
  match c with
  | "Y"%char => pretty (tm_year t + 1900)
  | "m"%char => pad2 (tm_mon t + 1)
  | "d"%char => pad2 (tm_mday t)
  | "H"%char => pad2 (tm_hour t)
  | "M"%char => pad2 (tm_min t)
  | "S"%char => pad2 (tm_sec t)
  | _ => String "%"%char (String c "")
  end.

Fixpoint strftime (fmt : string) (t : tm) : string :=
  match fmt with
  | "" => ""
  | String "%"%char (String c rest) => conversion c t +:+ strftime rest t
  | String c rest => String c (strftime rest t)
  end.

Record Put_time : Type := put_time { pt_tmb : tm; pt_fmt : string }.

#[global] Instance Insertable_put_time : Insertable Put_time :=
  fun p => strftime (pt_fmt p) (pt_tmb p).

(** ** Streams

    [LogRecursive] is a template over the stream type as well.  A stream is
    anything characters can be put into. *)

Class OStream (S : Type) : Type := put : S -> string -> S.

(** [std::cout] and [std::cerr]: the characters written so far. *)
Definition ostream : Type := string.

#[global] Instance OStream_ostream : OStream ostream := fun s txt => s +:+ txt.

(** [std::ofstream]: a stream that ignores output unless it is open.  Its
    [of_data] is the file as seen through the handle; in append mode every
    write lands after what the file already held. *)
Record ofstream : Type := mk_ofstream { is_open : bool; of_data : string }.

#[global] Instance OStream_ofstream : OStream ofstream := fun f txt =>
  if is_open f then {| is_open := true; of_data := of_data f +:+ txt |} else f.

Definition newline : string := String "010"%char "".

(** [stream << std::endl]: a newline character (and a flush). *)
Definition endl {S : Type} `{OStream S} (stream : S) : S := put stream newline.

Fixpoint LogRecursive {S : Type} `{OStream S} (stream : S) (args : list Item) : S :=
  match args with
  | [] => endl stream
  | item :: args => LogRecursive (put (put stream (item_text item)) " ") args
  end.

(** ** The class's constants *)

Definition log_file_name : string := "log.txt".

Definition error_type : string := "[ERROR]:".
Definition debug_type : string := "[DEBUG]:".
Definition success_type : string := "[SUCCESS]:".

(** The escape character, written [\033] in the header. *)
Definition ESC : ascii := "027"%char.

Definition error_type_color : string :=
  String ESC "[31m[ERROR]:" +:+ String ESC "[0m".
Definition debug_type_color : string :=
  String ESC "[33m[DEBUG]:" +:+ String ESC "[0m".
Definition success_type_color : string :=
  String ESC "[32m[SUCCESS]:" +:+ String ESC "[0m".

(** ** The world an emit call runs in

    [stream_type_] and [log_type_] are the two static data members.  The
    rest is the environment: both console streams, the contents of the files
    on disk, the paths that cannot be opened for appending, and the reading
    of the system clock in seconds since the epoch. *)

Record World : Type := mk_World {
  stream_type_ : StreamType;
  log_type_ : gset LogType;
  cout : ostream;
  cerr : ostream;
  disk : gmap string string;
  unwritable : gset string;
  clock : Z
}.

Definition set_stream_type (s : StreamType) (w : World) : World :=
  mk_World s (log_type_ w) (cout w) (cerr w) (disk w) (unwritable w) (clock w).

Definition set_log_type (l : gset LogType) (w : World) : World :=
  mk_World (stream_type_ w) l (cout w) (cerr w) (disk w) (unwritable w) (clock w).

Definition set_cout (o : ostream) (w : World) : World :=
  mk_World (stream_type_ w) (log_type_ w) o (cerr w) (disk w) (unwritable w) (clock w).

Definition set_cerr (o : ostream) (w : World) : World :=
  mk_World (stream_type_ w) (log_type_ w) (cout w) o (disk w) (unwritable w) (clock w).

Definition set_disk (d : gmap string string) (w : World) : World :=
  mk_World (stream_type_ w) (log_type_ w) (cout w) (cerr w) d (unwritable w) (clock w).

(** The static initialisers: [stream_type_{console}] and [log_type_{all}]. *)
Definition initial_stream_type : StreamType := console.
Definition initial_log_type : gset LogType := {[ all ]}.

(** The bytes of a file; a file that does not exist yet holds none. *)
Definition file_bytes (name : string) (w : World) : string :=
  default "" (disk w !! name).

(** [std::ofstream f(name, binary | app)]: the handle is open unless the path
    cannot be opened for appending; opening creates a missing file. *)
Definition ofstream_open (name : string) (w : World) : ofstream :=
  if decide (name ∈ unwritable w)
  then {| is_open := false; of_data := "" |}
  else {| is_open := true; of_data := file_bytes name w |}.

(** The end of the handle's scope: what was written is in the file. *)
Definition ofstream_close (name : string) (f : ofstream) (w : World) : World :=
  if is_open f then set_disk (<[ name := of_data f ]> (disk w)) w else w.

(** [unordered_set::count] and the [!] applied to its result. *)
Definition count (s : gset LogType) (k : LogType) : nat :=
  if decide (k ∈ s) then 1%nat else 0%nat.

Definition not_ (n : nat) : bool := Nat.eqb n 0.

(** ** Configuration calls *)

Definition SetStream (stream_type : StreamType) (w : World) : World :=
  set_stream_type stream_type w.

Definition SetLogType (log_type_list : list LogType) (w : World) : World :=
  set_log_type (foldl (fun s log_type => {[ log_type ]} ∪ s) ∅ log_type_list) w.

(** ** Emit calls *)

Definition CurrentTime (w : World) : Put_time :=
  let current_time_t := clock w in
  put_time (gmtime current_time_t) "[%Y-%m-%d %H:%M:%S]".

Definition LogInfo (args : list Item) (w : World) : World :=
  if not_ (count (log_type_ w) info) && not_ (count (log_type_ w) all) then w
  else
    match stream_type_ w with
    | CONSOLE => set_cout (LogRecursive (cout w) args) w
    | FILE =>
        let log_file := ofstream_open log_file_name w in
        if is_open log_file
        then ofstream_close log_file_name (LogRecursive log_file args) w
        else ofstream_close log_file_name log_file w
    | NONE => w
    end.

Definition LogDebug (function_name : string) (args : list Item) (w : World) : World :=
  if not_ (count (log_type_ w) debug) && not_ (count (log_type_ w) all) then w
  else
    match stream_type_ w with
    | CONSOLE =>
        set_cout
          (LogRecursive (cout w)
             (Arg debug_type_color :: Arg function_name :: Arg ":" :: args)) w
    | FILE =>
        let log_file := ofstream_open log_file_name w in
        if is_open log_file
        then ofstream_close log_file_name
               (LogRecursive log_file
                  (Arg (CurrentTime w) :: Arg debug_type :: Arg function_name
                     :: Arg ":" :: args)) w
        else ofstream_close log_file_name log_file w
    | NONE => w
    end.

Definition LogError (file_name function_name : string) (line : Z)
    (args : list Item) (w : World) : World :=
  if not_ (count (log_type_ w) error) && not_ (count (log_type_ w) all) then w
  else
    match stream_type_ w with
    | CONSOLE =>
        set_cerr
          (LogRecursive (cerr w)
             (Arg error_type_color :: Arg file_name :: Arg ":" :: Arg line
                :: Arg ":" :: Arg function_name :: Arg ":" :: args)) w
    | FILE =>
        let log_file := ofstream_open log_file_name w in
        if is_open log_file
        then ofstream_close log_file_name
               (LogRecursive log_file
                  (Arg (CurrentTime w) :: Arg error_type :: Arg line :: Arg ":"
                     :: Arg function_name :: Arg ":" :: args)) w
        else ofstream_close log_file_name log_file w
    | NONE => w
    end.

Definition LogSuccess (function_name : string) (w : World) : World :=
  if not_ (count (log_type_ w) success) && not_ (count (log_type_ w) all) then w
  else
    match stream_type_ w with
    | CONSOLE =>
        set_cout
          (LogRecursive (cout w) [Arg success_type_color; Arg function_name]) w
    | FILE =>
        let log_file := ofstream_open log_file_name w in
        if is_open log_file
        then ofstream_close log_file_name
               (LogRecursive log_file
                  [Arg (CurrentTime w); Arg success_type; Arg function_name]) w
        else ofstream_close log_file_name log_file w
    | NONE => w
    end.

(** The four entry points as one call type, for statements that range over
    every emit operation. *)
Inductive Call : Type :=
| CallInfo (args : list Item)
| CallDebug (function_name : string) (args : list Item)
| CallError (file_name function_name : string) (line : Z) (args : list Item)
| CallSuccess (function_name : string).

Definition category (c : Call) : LogType :=
  match c with
  | CallInfo _ => info
  | CallDebug _ _ => debug
  | CallError _ _ _ _ => error
  | CallSuccess _ => success
  end.

Definition emit (c : Call) (w : World) : World :=
  match c with
  | CallInfo args => LogInfo args w
  | CallDebug fn args => LogDebug fn args w
  | CallError f fn line args => LogError f fn line args w
  | CallSuccess fn => LogSuccess fn w
  end.

(** ** Vocabulary of the statements *)

(** A line as the specification words it: every element followed by one
    space, and a newline after the last. *)
Fixpoint joined (args : list Item) : string :=
  match args with
  | [] => newline
  | item :: rest => item_text item +:+ " " +:+ joined rest
  end.

(** The category filter lets a call of category [k] through. *)
Definition enabled (k : LogType) (w : World) : Prop :=
  k ∈ log_type_ w ∨ all ∈ log_type_ w.

(** The log file can be opened for appending. *)
Definition log_file_opens (w : World) : Prop := log_file_name ∉ unwritable w.

(** Something reached a console stream or the disk. *)
Definition produces_output (c : Call) (w : World) : Prop :=
  cout (emit c w) ≠ cout w ∨ cerr (emit c w) ≠ cerr w ∨ disk (emit c w) ≠ disk w.

(** The text has the given layout: an upper-case letter of the layout stands
    for one decimal digit, any other character for itself. *)
Definition is_digit (c : ascii) : bool :=
  (48 <=? nat_of_ascii c)%nat && (nat_of_ascii c <=? 57)%nat.

Definition is_upper (c : ascii) : bool :=
  (65 <=? nat_of_ascii c)%nat && (nat_of_ascii c <=? 90)%nat.

Fixpoint has_layout (layout s : string) : bool :=
  match layout, s with
  | "", "" => true
  | String p layout', String c s' =>
      (if is_upper p then is_digit c else bool_decide (p = c))
      && has_layout layout' s'
  | _, _ => false
  end.

(** Two runs of one call, in the worlds [w1] and [w2], wrote the same bytes:
    each stream gained the same text in both, and so did the log file, but
    for the timestamp each run put in front of its line, if it put one. *)
Definition same_line_but_stamp (c : Call) (w1 w2 : World) : Prop :=
  ∃ o e s1 s2 r : string,
    (cout (emit c w1) = cout w1 +:+ o ∧ cout (emit c w2) = cout w2 +:+ o)
    ∧ (cerr (emit c w1) = cerr w1 +:+ e ∧ cerr (emit c w2) = cerr w2 +:+ e)
    ∧ (file_bytes log_file_name (emit c w1)
       = file_bytes log_file_name w1 +:+ s1 +:+ r
       ∧ file_bytes log_file_name (emit c w2)
         = file_bytes log_file_name w2 +:+ s2 +:+ r)
    ∧ ((s1 = "" ∧ s2 = "")
       ∨ (s1 = text_of (CurrentTime w1) ∧ s2 = text_of (CurrentTime w2)))
    ∧ (stream_type_ w1 = console -> s1 = "" ∧ s2 = "" ∧ r = "")
    ∧ (clock w1 = clock w2 -> s1 = s2).

(** The clock readings whose year has four digits: from the epoch to the
    last second of the year 9999. *)
Definition four_digit_year (t : Z) : Prop := 0 <= t < 253402300800.

(** The argument pack each call hands to [LogRecursive], on the console and
    in the file branch; in the file branch, the pack after the timestamp. *)
Definition console_args (c : Call) : list Item :=
  match c with
  | CallInfo args => args
  | CallDebug fn args => Arg debug_type_color :: Arg fn :: Arg ":" :: args
  | CallError f fn line args =>
      Arg error_type_color :: Arg f :: Arg ":" :: Arg line :: Arg ":"
        :: Arg fn :: Arg ":" :: args
  | CallSuccess fn => [Arg success_type_color; Arg fn]
  end.

Definition file_tail (c : Call) : list Item :=
  match c with
  | CallInfo args => args
  | CallDebug fn args => Arg debug_type :: Arg fn :: Arg ":" :: args
  | CallError f fn line args =>
      Arg error_type :: Arg line :: Arg ":" :: Arg fn :: Arg ":" :: args
  | CallSuccess fn => [Arg success_type; Arg fn]
  end.

Definition file_args (c : Call) (w : World) : list Item :=
  match c with
  | CallInfo args => args
  | _ => Arg (CurrentTime w) :: file_tail c
  end.

(** The console stream a call writes to. *)
Definition to_cerr (c : Call) : bool :=
  match c with CallError _ _ _ _ => true | _ => false end.

(** ** Worlds at program start, and sample worlds

    Before any configuration call the static members hold their
    initialisers, whatever the environment is. *)
Definition at_start (o e : ostream) (d : gmap string string)
    (u : gset string) (t : Z) : World :=
  mk_World initial_stream_type initial_log_type o e d u t.

(** A process that has written nothing yet, at 2023-11-14 22:13:20 UTC; the
    same process after [SetStream(file)]; the latter one minute on; and the
    latter where [log.txt] cannot be opened. *)
Definition fresh : World := at_start "" "" ∅ ∅ 1700000000.

Definition fresh_file : World := SetStream file fresh.

Definition fresh_file_later : World :=
  mk_World file initial_log_type "" "" ∅ ∅ 1700000060.

Definition fresh_locked : World :=
  mk_World file initial_log_type "" "" ∅ {[ log_file_name ]} 1700000000.

(** ** Call sites and the logging macros

    [LOG_DEBUG], [LOG_SUCCESS] and [LOG_ERROR] pass what the compiler knows
    about the place of the call; [LOG_INFO] passes its arguments only.
    ([LOG_DEBUG] and [LOG_ERROR] do not expand to a well-formed call without
    at least one argument; the functions below accept the empty pack too.) *)
Record CallSite : Type := mk_CallSite {
  __FILE__ : string;
  __PRETTY_FUNCTION__ : string;
  __LINE__ : Z
}.

Definition LOG_INFO (args : list Item) (w : World) : World :=
  LogInfo args w.

Definition LOG_DEBUG (site : CallSite) (args : list Item) (w : World) : World :=
  LogDebug (__PRETTY_FUNCTION__ site) args w.

Definition LOG_SUCCESS (site : CallSite) (w : World) : World :=
  LogSuccess (__PRETTY_FUNCTION__ site) w.

Definition LOG_ERROR (site : CallSite) (args : list Item) (w : World) : World :=
  LogError (__FILE__ site) (__PRETTY_FUNCTION__ site) (__LINE__ site) args w.

(** ** A program's use of the class

    What a caller can do to the world through the class, one step at a
    time: configure, emit; between two steps the clock may have moved. *)
Inductive Op : Type :=
| OpSetStream (stream_type : StreamType)
| OpSetLogType (log_type_list : list LogType)
| OpEmit (c : Call)
| OpTick (t : Z).

Definition set_clock (t : Z) (w : World) : World :=
  mk_World (stream_type_ w) (log_type_ w) (cout w) (cerr w) (disk w)
    (unwritable w) t.

Definition step (w : World) (op : Op) : World :=
  match op with
  | OpSetStream s => SetStream s w
  | OpSetLogType l => SetLogType l w
  | OpEmit c => emit c w
  | OpTick t => set_clock t w
  end.

Definition run (ops : list Op) (w : World) : World := foldl step w ops.

(** How often a character occurs in a text. *)
Fixpoint occurrences (c : ascii) (s : string) : nat :=
  match s with
  | "" => 0%nat
  | String x rest =>
      ((if bool_decide (x = c) then 1 else 0) + occurrences c rest)%nat
  end.

Definition LF : ascii := "010"%char.

(** A text made of complete lines: empty, or ending in a newline. *)
Definition complete_lines (s : string) : Prop :=
  s = "" ∨ ∃ body, s = body +:+ newline.

(** ** Strings *)

Section Strings.

Lemma append_nil_r (s : string) : s +:+ "" = s.
Proof. induction s as [|c s IH]; simpl; [reflexivity | now rewrite IH]. Qed.

Lemma append_assoc (a b c : string) : (a +:+ b) +:+ c = a +:+ (b +:+ c).
Proof. induction a as [|x a IH]; simpl; [reflexivity | now rewrite IH]. Qed.

Lemma append_same_l (s l : string) : s +:+ l = s -> l = "".
Proof.
  intros H. apply (String.app_inj s). change (s +:+ l = s +:+ "").
  now rewrite append_nil_r.
Qed.

Lemma append_grows (s l : string) : l ≠ "" -> s +:+ l ≠ s.
Proof. intros Hl H. now apply Hl, (append_same_l s). Qed.

Lemma has_layout_app (l1 l2 s1 s2 : string) :
  has_layout l1 s1 = true -> has_layout l2 s2 = true ->
  has_layout (l1 +:+ l2) (s1 +:+ s2) = true.
Proof.
  revert s1. induction l1 as [|p l1 IH]; intros [|c s1]; simpl;
    try discriminate; auto.
  intros H1 H2. apply andb_true_iff in H1 as [Hc H1].
  rewrite Hc. simpl. now apply IH.
Qed.

End Strings.

(** ** The filter *)

Lemma filter_blocks (k : LogType) (w : World) :
  not_ (count (log_type_ w) k) && not_ (count (log_type_ w) all) = true
  <-> ¬ enabled k w.
Proof.
  unfold enabled, not_, count.
  destruct (decide (k ∈ log_type_ w)), (decide (all ∈ log_type_ w)); simpl;
    split; intros H; try discriminate; try reflexivity; tauto.
Qed.

Lemma filter_passes (k : LogType) (w : World) :
  enabled k w ->
  not_ (count (log_type_ w) k) && not_ (count (log_type_ w) all) = false.
Proof.
  intros H. apply not_true_is_false. rewrite filter_blocks. tauto.
Qed.

Lemma filter_stops (k : LogType) (w : World) :
  ¬ enabled k w ->
  not_ (count (log_type_ w) k) && not_ (count (log_type_ w) all) = true.
Proof. apply filter_blocks. Qed.

Lemma enabled_dec (k : LogType) (w : World) : enabled k w ∨ ¬ enabled k w.
Proof. unfold enabled. destruct (decide (k ∈ log_type_ w)), (decide (all ∈ log_type_ w)); tauto. Qed.

(** ** [LogRecursive] writes the joined line *)

Lemma LogRecursive_ostream (args : list Item) (s : ostream) :
  LogRecursive s args = s +:+ joined args.
Proof.
  revert s. induction args as [|i args IH]; intros s; simpl.
  - reflexivity.
  - rewrite IH. unfold put, OStream_ostream. now rewrite !append_assoc.
Qed.

Lemma LogRecursive_ofstream (args : list Item) (d : string) :
  LogRecursive (mk_ofstream true d) args = mk_ofstream true (d +:+ joined args).
Proof.
  revert d. induction args as [|i args IH]; intros d; simpl.
  - reflexivity.
  - unfold put at 1 2, OStream_ofstream. simpl. rewrite IH.
    now rewrite !append_assoc.
Qed.

Lemma joined_nonempty (args : list Item) : joined args ≠ "".
Proof.
  destruct args as [|i args]; simpl; [discriminate|].
  destruct (item_text i); discriminate.
Qed.

(** ** The timestamp *)

Section Timestamp.

Lemma range_check (P : Z -> bool) (lo len : Z) :
  forallb P (seqZ lo len) = true -> forall n, lo <= n < lo + len -> P n = true.
Proof.
  intros H n Hn. rewrite forallb_forall in H. apply H.
  apply list_elem_of_In, elem_of_seqZ. lia.
Qed.

Lemma pad2_layout (n : Z) : 0 <= n < 100 -> has_layout "DD" (pad2 n) = true.
Proof.
  apply (range_check (fun n => has_layout "DD" (pad2 n)) 0 100).
  vm_compute. reflexivity.
Qed.

Lemma year_layout (n : Z) :
  1970 <= n < 10000 -> has_layout "YYYY" (pretty n) = true.
Proof.
  intros Hn.
  apply (range_check (fun n => has_layout "YYYY" (pretty n)) 1970 8030);
    [vm_compute; reflexivity | lia].
Qed.

(** Every field of the broken-down time is in its calendar range. *)
Lemma gmtime_range (t : Z) :
  four_digit_year t ->
  0 <= tm_sec (gmtime t) < 60 /\ 0 <= tm_min (gmtime t) < 60
  /\ 0 <= tm_hour (gmtime t) < 24 /\ 1 <= tm_mday (gmtime t) <= 31
  /\ 0 <= tm_mon (gmtime t) <= 11 /\ 70 <= tm_year (gmtime t) <= 8099.
Proof.
  unfold four_digit_year. intros Ht. unfold gmtime.
  cbn [tm_sec tm_min tm_hour tm_mday tm_mon tm_year].
  assert (Hd : 0 <= t / 86400 <= 2932896) by (Z.div_mod_to_equations; lia).
  set (days := t / 86400) in *.
  split; [Z.div_mod_to_equations; lia|].
  split; [Z.div_mod_to_equations; lia|].
  split; [Z.div_mod_to_equations; lia|].
  clearbody days. clear Ht.
  assert (He : 4 <= (days + 719468) / 146097 <= 24)
    by (Z.div_mod_to_equations; lia).
  set (era := (days + 719468) / 146097) in *.
  assert (H1 : 0 <= (days + 719468) - era * 146097 <= 146096)
    by (subst era; Z.div_mod_to_equations; lia).
  set (doe := (days + 719468) - era * 146097) in *.
  assert (H2 : 0 <= (doe - doe / 1460 + doe / 36524 - doe / 146096) / 365 <= 399)
    by (Z.div_mod_to_equations; lia).
  set (yoe := (doe - doe / 1460 + doe / 36524 - doe / 146096) / 365) in *.
  assert (H3 : 0 <= doe - (365 * yoe + yoe / 4 - yoe / 100) <= 365)
    by (subst yoe; Z.div_mod_to_equations; lia).
  set (doy := doe - (365 * yoe + yoe / 4 - yoe / 100)) in *.
  assert (H4 : 0 <= (5 * doy + 2) / 153 <= 11)
    by (Z.div_mod_to_equations; lia).
  set (mp := (5 * doy + 2) / 153) in *.
  assert (H5 : 1 <= doy - (153 * mp + 2) / 5 + 1 <= 31)
    by (subst mp; Z.div_mod_to_equations; lia).
  (* the first and the last March-based year of the range are cut short *)
  assert (Hlo : era = 4 -> yoe <= 369 -> yoe = 369 /\ 306 <= doy)
    by (intros; subst doy yoe doe; Z.div_mod_to_equations; lia).
  assert (Hhi : era = 24 -> 399 <= yoe -> doy <= 305)
    by (intros; subst doy yoe doe; Z.div_mod_to_equations; lia).
  assert (Hmp : (306 <= doy -> 10 <= mp) /\ (doy <= 305 -> mp <= 9))
    by (subst mp; Z.div_mod_to_equations; lia).
  clearbody mp doy yoe doe era.
  split; [exact H5|].
  destruct (mp <? 10) eqn:E1; [apply Z.ltb_lt in E1 | apply Z.ltb_ge in E1].
  - split; [lia|].
    destruct (mp + 3 <=? 2) eqn:E2; [apply Z.leb_le in E2; lia | lia].
  - split; [lia|].
    destruct (mp - 9 <=? 2) eqn:E2; [lia | apply Z.leb_gt in E2; lia].
Qed.

(** What [CurrentTime] inserts has the layout of its format. *)
Lemma CurrentTime_layout (w : World) :
  four_digit_year (clock w) ->
  has_layout "[YYYY-MM-DD HH:MM:SS]" (text_of (CurrentTime w)) = true.
Proof.
  intros Ht. destruct (gmtime_range _ Ht) as (Hs & Hm & Hh & Hd & Hmo & Hy).
  unfold CurrentTime, text_of, Insertable_put_time. cbn [pt_fmt pt_tmb].
  set (t := gmtime (clock w)) in *.
  change (has_layout
            ("[" +:+ "YYYY" +:+ "-" +:+ "MM" +:+ "-" +:+ "DD" +:+ " " +:+ "HH"
               +:+ ":" +:+ "MM" +:+ ":" +:+ "SS" +:+ "]")
            ("[" +:+ pretty (tm_year t + 1900) +:+ "-" +:+ pad2 (tm_mon t + 1)
               +:+ "-" +:+ pad2 (tm_mday t) +:+ " " +:+ pad2 (tm_hour t)
               +:+ ":" +:+ pad2 (tm_min t) +:+ ":" +:+ pad2 (tm_sec t) +:+ "]")
          = true).
  repeat (apply has_layout_app;
          [first [ reflexivity | apply year_layout; lia | apply pad2_layout; lia ] |]).
  reflexivity.
Qed.

End Timestamp.

(** ** What one emit call does to the world *)

Ltac unfold_emit :=
  unfold emit, LogInfo, LogDebug, LogError, LogSuccess, category in *.

Ltac unfold_world :=
  unfold SetStream, SetLogType, set_stream_type, set_log_type, set_cout,
    set_cerr, set_disk, file_bytes in *;
  cbn [stream_type_ log_type_ cout cerr disk unwritable clock] in *.

Lemma emit_blocked (c : Call) (w : World) :
  ¬ enabled (category c) w -> emit c w = w.
Proof.
  intros H. destruct c; unfold_emit; now rewrite (filter_stops _ _ H).
Qed.

Lemma emit_none (c : Call) (w : World) :
  stream_type_ w = NONE -> emit c w = w.
Proof.
  intros Hs. destruct c; unfold_emit; rewrite Hs;
    match goal with |- (if ?b then _ else _) = _ => now destruct b end.
Qed.

Lemma emit_console (c : Call) (w : World) :
  enabled (category c) w -> stream_type_ w = console ->
  emit c w =
    if to_cerr c then set_cerr (cerr w +:+ joined (console_args c)) w
    else set_cout (cout w +:+ joined (console_args c)) w.
Proof.
  intros H Hs. destruct c; unfold_emit; rewrite (filter_passes _ _ H), Hs;
    cbn [to_cerr console_args]; now rewrite LogRecursive_ostream.
Qed.

Lemma emit_unwritable (c : Call) (w : World) :
  stream_type_ w = file -> ¬ log_file_opens w -> emit c w = w.
Proof.
  unfold log_file_opens. intros Hs Hu.
  assert (Ho : ofstream_open log_file_name w = mk_ofstream false "").
  { unfold ofstream_open. destruct (decide (log_file_name ∈ unwritable w)); tauto. }
  destruct c; unfold_emit; rewrite Hs, Ho; cbn [is_open ofstream_close];
    match goal with |- (if ?b then _ else _) = _ => now destruct b end.
Qed.

Lemma emit_file (c : Call) (w : World) :
  enabled (category c) w -> stream_type_ w = file -> log_file_opens w ->
  emit c w =
    set_disk
      (<[ log_file_name :=
            file_bytes log_file_name w +:+ joined (file_args c w) ]> (disk w)) w.
Proof.
  unfold log_file_opens. intros H Hs Hu.
  assert (Ho : ofstream_open log_file_name w
               = mk_ofstream true (file_bytes log_file_name w)).
  { unfold ofstream_open. destruct (decide (log_file_name ∈ unwritable w)); tauto. }
  destruct c; unfold_emit; rewrite (filter_passes _ _ H), Hs, Ho;
    cbn [is_open file_args file_tail]; rewrite LogRecursive_ofstream;
    reflexivity.
Qed.

Lemma file_bytes_written (txt : string) (w : World) :
  file_bytes log_file_name
    (set_disk (<[ log_file_name := txt ]> (disk w)) w) = txt.
Proof. unfold_world. now rewrite lookup_insert_eq. Qed.

Lemma disk_grows (l : string) (w : World) :
  l ≠ "" ->
  <[ log_file_name := file_bytes log_file_name w +:+ l ]> (disk w) ≠ disk w.
Proof.
  intros Hl H. apply (f_equal (fun d => default "" (d !! log_file_name))) in H.
  rewrite lookup_insert_eq in H. cbn [default] in H.
  now apply (append_grows _ _ Hl) in H.
Qed.

Lemma stream_type_cases (w : World) :
  stream_type_ w = NONE ∨ stream_type_ w = console ∨ stream_type_ w = file.
Proof. unfold console, file. destruct (stream_type_ w); tauto. Qed.

Lemma log_file_opens_dec (w : World) : log_file_opens w ∨ ¬ log_file_opens w.
Proof.
  unfold log_file_opens. destruct (decide (log_file_name ∈ unwritable w)); tauto.
Qed.

Lemma no_output_unchanged (c : Call) (w : World) :
  emit c w = w -> ¬ produces_output c w.
Proof.
  unfold produces_output. intros ->. intros [H | [H | H]]; now apply H.
Qed.

Lemma console_produces_output (c : Call) (w : World) :
  enabled (category c) w -> stream_type_ w = console -> produces_output c w.
Proof.
  intros He Hs. unfold produces_output. rewrite (emit_console _ _ He Hs).
  destruct (to_cerr c); unfold_world;
    [right; left | left]; apply append_grows, joined_nonempty.
Qed.

Lemma file_produces_output (c : Call) (w : World) :
  enabled (category c) w -> stream_type_ w = file -> log_file_opens w ->
  produces_output c w.
Proof.
  intros He Hs Ho. unfold produces_output. rewrite (emit_file _ _ He Hs Ho).
  unfold_world. right; right. apply disk_grows, joined_nonempty.
Qed.

(** ** The category filter *)

(** C1, as the header behaves: an emit call of category [c] produces output
    exactly when [c] or [all] is among the active categories and, besides,
    the sink takes the line: the console, or the file with [log.txt] opened.
    When neither [c] nor [all] is active the call leaves the whole world as
    it was. *)
Theorem emit_output_iff (c : Call) (w : World) :
  (produces_output c w
   <-> enabled (category c) w
       ∧ (stream_type_ w = console ∨ (stream_type_ w = file ∧ log_file_opens w)))
  ∧ (¬ enabled (category c) w -> emit c w = w).
Proof.
  split; [split|apply emit_blocked].
  - intros Hout.
    destruct (enabled_dec (category c) w) as [He | He];
      [| now apply no_output_unchanged in Hout; [|apply emit_blocked]].
    split; [exact He|].
    destruct (stream_type_cases w) as [Hs | [Hs | Hs]]; [| now left |].
    + now apply no_output_unchanged in Hout; [|apply emit_none].
    + destruct (log_file_opens_dec w) as [Ho | Ho]; [now right|].
      now apply no_output_unchanged in Hout; [|apply emit_unwritable].
  - intros [He [Hs | [Hs Ho]]].
    + now apply console_produces_output.
    + now apply file_produces_output.
Qed.

(** C1 as worded fails where the file sink cannot open [log.txt]: [all] is
    active, and the call still produces nothing. *)
Lemma emit_output_iff_fails_locked :
  ¬ (produces_output (CallInfo [Arg "a"]) fresh_locked
     <-> enabled (category (CallInfo [Arg "a"])) fresh_locked).
Proof.
  intros [_ H].
  assert (He : enabled (category (CallInfo [Arg "a"])) fresh_locked).
  { right. unfold fresh_locked, initial_log_type. cbn [log_type_]. set_solver. }
  apply H in He. revert He. apply no_output_unchanged.
  apply emit_unwritable; [reflexivity|].
  unfold log_file_opens, fresh_locked. cbn [unwritable]. set_solver.
Qed.

(** ** The sample worlds *)

Lemma fresh_enabled (k : LogType) : enabled k fresh.
Proof.
  right. unfold fresh, at_start, initial_log_type. cbn [log_type_]. set_solver.
Qed.

Lemma fresh_file_enabled (k : LogType) : enabled k fresh_file.
Proof. exact (fresh_enabled k). Qed.

Lemma fresh_file_opens : log_file_opens fresh_file.
Proof.
  unfold log_file_opens, fresh_file, fresh, at_start. unfold_world. set_solver.
Qed.

Lemma fresh_file_later_opens : log_file_opens fresh_file_later.
Proof.
  unfold log_file_opens, fresh_file_later. cbn [unwritable]. set_solver.
Qed.

Lemma fresh_locked_stuck : ¬ log_file_opens fresh_locked.
Proof. unfold log_file_opens, fresh_locked. cbn [unwritable]. set_solver. Qed.

(** ** The line in the log file *)

(** C2, as the header behaves.  With the file sink and [log.txt] opened, a
    Debug, Success or Error call appends the timestamp, then the plain tag,
    then the caller's data, then the joined items; the timestamp has the
    layout [[YYYY-MM-DD HH:MM:SS]] for every clock reading from the epoch to
    the end of the year 9999.  An Info call appends the joined items alone,
    as it does on the console.  For Error the line ends with the line
    number, the function name and the items; what stands between the tag and
    the line number is left open here. *)
Theorem file_line_layout (w : World) :
  stream_type_ w = file -> log_file_opens w ->
  let stamp := text_of (CurrentTime w) in
  let old := file_bytes log_file_name w in
  (four_digit_year (clock w) ->
   has_layout "[YYYY-MM-DD HH:MM:SS]" stamp = true)
  ∧ (∀ args, enabled info w ->
       file_bytes log_file_name (LogInfo args w) = old +:+ joined args)
  ∧ (∀ fn args, enabled debug w ->
       file_bytes log_file_name (LogDebug fn args w)
       = old +:+ stamp +:+ " [DEBUG]: " +:+ fn +:+ " : " +:+ joined args)
  ∧ (∀ fn, enabled success w ->
       file_bytes log_file_name (LogSuccess fn w)
       = old +:+ stamp +:+ " [SUCCESS]: " +:+ fn +:+ " " +:+ newline)
  ∧ (∀ f fn line args, enabled error w ->
       ∃ mid, file_bytes log_file_name (LogError f fn line args w)
              = old +:+ stamp +:+ " [ERROR]: " +:+ mid +:+ pretty line +:+ " : "
                  +:+ fn +:+ " : " +:+ joined args).
Proof.
  intros Hs Ho stamp old. split; [now apply CurrentTime_layout|].
  split; [|split; [|split]].
  - intros args He.
    change (LogInfo args w) with (emit (CallInfo args) w).
    rewrite (emit_file (CallInfo args) w He Hs Ho), file_bytes_written.
    reflexivity.
  - intros fn args He.
    change (LogDebug fn args w) with (emit (CallDebug fn args) w).
    rewrite (emit_file (CallDebug fn args) w He Hs Ho), file_bytes_written.
    reflexivity.
  - intros fn He.
    change (LogSuccess fn w) with (emit (CallSuccess fn) w).
    rewrite (emit_file (CallSuccess fn) w He Hs Ho), file_bytes_written.
    reflexivity.
  - intros f fn line args He. exists "".
    change (LogError f fn line args w)
      with (emit (CallError f fn line args) w).
    rewrite (emit_file (CallError f fn line args) w He Hs Ho),
      file_bytes_written.
    reflexivity.
Qed.

Lemma file_line_layout_witness :
  stream_type_ fresh_file = file ∧ log_file_opens fresh_file
  ∧ has_layout "[YYYY-MM-DD HH:MM:SS]" (text_of (CurrentTime fresh_file)) = true
  ∧ file_bytes log_file_name (LogDebug "main" [Arg "x"; Arg 7] fresh_file)
    = "[2023-11-14 22:13:20] [DEBUG]: main : x 7 " +:+ newline.
Proof.
  assert (Ht : four_digit_year (clock fresh_file))
    by (unfold four_digit_year; simpl; lia).
  split; [reflexivity|]. split; [exact fresh_file_opens|].
  destruct (file_line_layout fresh_file eq_refl fresh_file_opens)
    as (Hl & _ & Hd & _).
  split; [exact (Hl Ht)|].
  rewrite (Hd "main" [Arg "x"; Arg 7] (fresh_file_enabled debug)).
  vm_compute. reflexivity.
Defined.

(** C2 as worded fails for Info: the line an Info call appends to the file
    does not begin with a timestamp. *)
Lemma info_file_line_without_timestamp :
  ¬ ∃ stamp rest,
      has_layout "[YYYY-MM-DD HH:MM:SS]" stamp = true
      ∧ file_bytes log_file_name (LogInfo [Arg "a"] fresh_file)
        = file_bytes log_file_name fresh_file +:+ stamp +:+ rest.
Proof.
  intros (stamp & rest & Hl & H).
  destruct stamp as [|c stamp]; [discriminate Hl|].
  simpl in Hl. apply andb_true_iff in Hl as [Hc _].
  apply bool_decide_eq_true in Hc. subst c.
  assert (Hw : file_bytes log_file_name (LogInfo [Arg "a"] fresh_file)
               = "a " +:+ newline) by (vm_compute; reflexivity).
  assert (Hf : file_bytes log_file_name fresh_file = "") by reflexivity.
  rewrite Hw, Hf in H. simpl in H. discriminate H.
Qed.

(** The Error line of the file branch on the call site [x.cpp:10], function
    [main], item [boom]: the file name the console branch prints is not in
    it. *)
Example LogError_file_scenario :
  file_bytes log_file_name (LogError "x.cpp" "main" 10 [Arg "boom"] fresh_file)
  = "[2023-11-14 22:13:20] [ERROR]: 10 : main : boom " +:+ newline
  ∧ cerr (LogError "x.cpp" "main" 10 [Arg "boom"] fresh)
    = error_type_color +:+ " x.cpp : 10 : main : boom " +:+ newline.
Proof. split; vm_compute; reflexivity. Qed.

(** ** [SetLogType] *)

Lemma SetLogType_loop (l : list LogType) (acc : gset LogType) :
  foldl (fun s log_type => {[ log_type ]} ∪ s) acc l = list_to_set l ∪ acc.
Proof.
  revert acc. induction l as [|k l IH]; intros acc; simpl.
  - now rewrite (left_id_L ∅ (∪)).
  - rewrite IH. apply set_eq. intros x.
    rewrite !elem_of_union. tauto.
Qed.

Lemma SetLogType_log_type (l : list LogType) (w : World) :
  log_type_ (SetLogType l w) = list_to_set l.
Proof. unfold_world. rewrite SetLogType_loop. apply (right_id_L ∅ (∪)). Qed.

Lemma enabled_after_SetLogType (k : LogType) (l : list LogType) (w : World) :
  enabled k (SetLogType l w) <-> k ∈ l ∨ all ∈ l.
Proof.
  unfold enabled. rewrite SetLogType_log_type, !elem_of_list_to_set. tauto.
Qed.

(** ** The console line *)

(** C3, as the header behaves: after [SetStream(console)] and
    [SetLogType({info})], [LogInfo("a", 1)] adds to standard output exactly
    [a], a space, [1], a space and a newline, every element being followed
    by its space; standard error and the disk stay as they were, and a call
    of any other category changes nothing. *)
Theorem info_a_1_console (w : World) :
  let w0 := SetLogType [info] (SetStream console w) in
  cout (LogInfo [Arg "a"; Arg 1] w0) = cout w +:+ "a 1 " +:+ newline
  ∧ cerr (LogInfo [Arg "a"; Arg 1] w0) = cerr w
  ∧ disk (LogInfo [Arg "a"; Arg 1] w0) = disk w
  ∧ ∀ c, category c ≠ info -> emit c w0 = w0.
Proof.
  intros w0.
  assert (He : enabled (category (CallInfo [Arg "a"; Arg 1])) w0)
    by (apply enabled_after_SetLogType; left; apply list_elem_of_singleton;
        reflexivity).
  assert (Hs : stream_type_ w0 = console) by reflexivity.
  change (LogInfo [Arg "a"; Arg 1] w0) with (emit (CallInfo [Arg "a"; Arg 1]) w0).
  rewrite (emit_console (CallInfo [Arg "a"; Arg 1]) w0 He Hs).
  cbn [to_cerr]. repeat split.
  intros c Hc. apply emit_blocked. unfold w0.
  rewrite enabled_after_SetLogType.
  intros [H | H]; apply list_elem_of_singleton in H; [tauto | discriminate H].
Qed.

(** C3 as worded fails: the bytes are not [a 1] and a newline, a space
    stands before the newline. *)
Lemma info_a_1_console_not_bare :
  cout (LogInfo [Arg "a"; Arg 1] (SetLogType [info] (SetStream console fresh)))
  ≠ cout fresh +:+ "a 1" +:+ newline.
Proof. intros H. vm_compute in H. discriminate H. Qed.

(** C10: with the filter open and the console sink, [LogInfo()] with no
    argument adds exactly one newline to standard output, and nothing
    anywhere else. *)
Theorem info_no_args_console (w : World) :
  enabled info w -> stream_type_ w = console ->
  cout (LogInfo [] w) = cout w +:+ newline
  ∧ cerr (LogInfo [] w) = cerr w ∧ disk (LogInfo [] w) = disk w.
Proof.
  intros He Hs. change (LogInfo [] w) with (emit (CallInfo []) w).
  rewrite (emit_console (CallInfo []) w He Hs). cbn [to_cerr]. repeat split.
Qed.

Lemma info_no_args_console_witness :
  enabled info fresh ∧ stream_type_ fresh = console
  ∧ cout (LogInfo [] fresh) = cout fresh +:+ newline.
Proof.
  split; [exact (fresh_enabled info)|]. split; [reflexivity|].
  exact (proj1 (info_no_args_console fresh (fresh_enabled info) eq_refl)).
Defined.

(** C4: with the console sink and the filter open, an Error call adds its
    line to standard error and leaves standard output alone; an Info, Debug
    or Success call adds its line to standard output and leaves standard
    error alone.  The line is never empty and the disk is not touched. *)
Theorem console_stream_of_category (c : Call) (w : World) :
  stream_type_ w = console -> enabled (category c) w ->
  ∃ line, line ≠ ""
    ∧ (category c = error ->
       cerr (emit c w) = cerr w +:+ line ∧ cout (emit c w) = cout w)
    ∧ (category c ≠ error ->
       cout (emit c w) = cout w +:+ line ∧ cerr (emit c w) = cerr w)
    ∧ disk (emit c w) = disk w.
Proof.
  intros Hs He. exists (joined (console_args c)).
  split; [apply joined_nonempty|].
  rewrite (emit_console c w He Hs).
  destruct c; cbn [to_cerr category]; unfold_world;
    intuition (try discriminate; try congruence).
Qed.

Lemma console_stream_of_category_witness :
  stream_type_ fresh = console
  ∧ enabled (category (CallError "x.cpp" "main" 10 [Arg "boom"])) fresh
  ∧ ∃ line, line ≠ ""
      ∧ (category (CallError "x.cpp" "main" 10 [Arg "boom"]) = error ->
         cerr (emit (CallError "x.cpp" "main" 10 [Arg "boom"]) fresh)
         = cerr fresh +:+ line
         ∧ cout (emit (CallError "x.cpp" "main" 10 [Arg "boom"]) fresh)
           = cout fresh)
      ∧ (category (CallError "x.cpp" "main" 10 [Arg "boom"]) ≠ error ->
         cout (emit (CallError "x.cpp" "main" 10 [Arg "boom"]) fresh)
         = cout fresh +:+ line
         ∧ cerr (emit (CallError "x.cpp" "main" 10 [Arg "boom"]) fresh)
           = cerr fresh)
      ∧ disk (emit (CallError "x.cpp" "main" 10 [Arg "boom"]) fresh)
        = disk fresh.
Proof.
  split; [reflexivity|]. split; [exact (fresh_enabled error)|].
  exact (console_stream_of_category
           (CallError "x.cpp" "main" 10 [Arg "boom"]) fresh eq_refl
           (fresh_enabled error)).
Defined.

(** ** Reconfiguring the categories *)

(** C5: [SetLogType(L)] makes the active categories exactly the elements of
    [L], whatever they were before.  So after [SetLogType({error})] and then
    [SetLogType({debug})] an Error call changes nothing, and after
    [SetLogType({})] no call of any category changes anything. *)
Theorem SetLogType_replaces :
  (∀ (l : list LogType) (w : World),
     log_type_ (SetLogType l w) = list_to_set l
     ∧ ∀ k, k ∈ log_type_ (SetLogType l w) <-> k ∈ l)
  ∧ (∀ (w : World) f fn line args,
       let w2 := SetLogType [debug] (SetLogType [error] w) in
       LogError f fn line args w2 = w2
       ∧ ¬ produces_output (CallError f fn line args) w2)
  ∧ (∀ (w : World) (c : Call),
       emit c (SetLogType [] w) = SetLogType [] w
       ∧ ¬ produces_output c (SetLogType [] w)).
Proof.
  split; [|split].
  - intros l w. rewrite SetLogType_log_type. split; [reflexivity|].
    intros k. apply elem_of_list_to_set.
  - intros w f fn line args w2.
    assert (H : emit (CallError f fn line args) w2 = w2).
    { apply emit_blocked. unfold w2. rewrite enabled_after_SetLogType.
      intros [H | H]; apply list_elem_of_singleton in H; discriminate H. }
    split; [exact H | now apply no_output_unchanged].
  - intros w c.
    assert (H : emit c (SetLogType [] w) = SetLogType [] w).
    { apply emit_blocked. rewrite enabled_after_SetLogType.
      intros [H | H]; now apply not_elem_of_nil in H. }
    split; [exact H | now apply no_output_unchanged].
Qed.

(** ** A log file that cannot be opened *)

(** C6: an emit call is a total function on worlds, it has no other way to
    return.  With the file sink and a [log.txt] that cannot be opened, the
    handle is not open and the call hands back the world it was given:
    nothing is written anywhere. *)
Theorem emit_unopened_noop (c : Call) (w : World) :
  stream_type_ w = file -> ¬ log_file_opens w ->
  is_open (ofstream_open log_file_name w) = false
  ∧ emit c w = w
  ∧ ¬ produces_output c w.
Proof.
  intros Hs Ho. split; [|split].
  - unfold ofstream_open, log_file_opens in *.
    destruct (decide (log_file_name ∈ unwritable w)); [reflexivity | tauto].
  - now apply emit_unwritable.
  - now apply no_output_unchanged, emit_unwritable.
Qed.

Lemma emit_unopened_noop_witness :
  stream_type_ fresh_locked = file ∧ ¬ log_file_opens fresh_locked
  ∧ emit (CallSuccess "main") fresh_locked = fresh_locked.
Proof.
  split; [reflexivity|]. split; [exact fresh_locked_stuck|].
  exact (proj1 (proj2 (emit_unopened_noop (CallSuccess "main") fresh_locked
                         eq_refl fresh_locked_stuck))).
Defined.

(** ** The configuration at program start *)

(** C7: at program start the sink is the console and the active categories
    are the one-element set of [all]; a call of any category then adds a
    non-empty line to a console stream, and the disk is not touched. *)
Theorem default_configuration (o e : ostream) (d : gmap string string)
    (u : gset string) (t : Z) (c : Call) :
  let w := at_start o e d u t in
  stream_type_ w = console
  ∧ log_type_ w = {[ all ]}
  ∧ enabled (category c) w
  ∧ produces_output c w
  ∧ (∃ line, line ≠ ""
       ∧ (cout (emit c w) = cout w +:+ line ∨ cerr (emit c w) = cerr w +:+ line))
  ∧ disk (emit c w) = disk w.
Proof.
  intros w.
  assert (He : enabled (category c) w).
  { right. unfold w, at_start, initial_log_type. cbn [log_type_].
    now apply elem_of_singleton. }
  assert (Hs : stream_type_ w = console) by reflexivity.
  split; [exact Hs|]. split; [reflexivity|]. split; [exact He|].
  split; [apply console_produces_output; assumption|].
  rewrite (emit_console c w He Hs). split.
  - exists (joined (console_args c)). split; [apply joined_nonempty|].
    destruct (to_cerr c); [right | left]; reflexivity.
  - now destruct (to_cerr c).
Qed.

(** ** Emit calls and the configuration *)

Lemma emit_shape (c : Call) (w : World) :
  emit c w = w ∨ (∃ o, emit c w = set_cout o w)
  ∨ (∃ e, emit c w = set_cerr e w) ∨ (∃ d, emit c w = set_disk d w).
Proof.
  destruct (enabled_dec (category c) w) as [He | He];
    [| left; now apply emit_blocked].
  destruct (stream_type_cases w) as [Hs | [Hs | Hs]].
  - left. now apply emit_none.
  - rewrite (emit_console c w He Hs). destruct (to_cerr c); eauto.
  - destruct (log_file_opens_dec w) as [Ho | Ho].
    + rewrite (emit_file c w He Hs Ho). eauto.
    + left. now apply emit_unwritable.
Qed.

(** C9: an emit call leaves [stream_type_] and [log_type_] as they were,
    whatever its arguments and the configuration; [SetStream] and
    [SetLogType] are the calls that write them, each its own member. *)
Theorem emit_keeps_configuration (c : Call) (w : World) :
  (stream_type_ (emit c w) = stream_type_ w
   ∧ log_type_ (emit c w) = log_type_ w)
  ∧ (∀ s, stream_type_ (SetStream s w) = s
          ∧ log_type_ (SetStream s w) = log_type_ w)
  ∧ (∀ l, log_type_ (SetLogType l w) = list_to_set l
          ∧ stream_type_ (SetLogType l w) = stream_type_ w).
Proof.
  split; [|split].
  - destruct (emit_shape c w) as [H | [[o H] | [[e H] | [d H]]]];
      rewrite H; split; reflexivity.
  - intros s. split; reflexivity.
  - intros l. split; [apply SetLogType_log_type | reflexivity].
Qed.

(** ** The same call twice *)

Lemma enabled_same_config (k : LogType) (w1 w2 : World) :
  log_type_ w1 = log_type_ w2 -> enabled k w1 -> enabled k w2.
Proof. unfold enabled. now intros ->. Qed.

Ltac same_bytes :=
  unfold_world; rewrite ?lookup_insert_eq; cbn [default]; simpl;
  rewrite ?append_nil_r; try reflexivity.

Lemma nothing_twice (c : Call) (w1 w2 : World) :
  emit c w1 = w1 -> emit c w2 = w2 -> same_line_but_stamp c w1 w2.
Proof.
  intros H1 H2. exists "", "", "", "", "". rewrite H1, H2.
  repeat split; try (left; split; reflexivity); same_bytes.
Qed.

(** C8, as the header behaves: the same call made in two worlds with the
    same sink and the same active categories writes the same bytes to the
    same place, provided that, when the sink is the file, [log.txt] opens in
    both worlds or in neither; only the timestamp at the head of a file line
    follows each world's clock, and on the console there is none.  With the
    console sink nothing is asked of the log file. *)
Theorem repeated_emit_same_line (c : Call) (w1 w2 : World) :
  stream_type_ w1 = stream_type_ w2 -> log_type_ w1 = log_type_ w2 ->
  (stream_type_ w1 = file -> (log_file_opens w1 <-> log_file_opens w2)) ->
  same_line_but_stamp c w1 w2.
Proof.
  intros Hs Hl Hopen.
  destruct (enabled_dec (category c) w1) as [He1 | He1].
  2:{ apply nothing_twice; apply emit_blocked; [exact He1|].
      intros He2. apply He1.
      now apply (enabled_same_config _ w2 w1). }
  assert (He2 : enabled (category c) w2)
    by now apply (enabled_same_config _ w1 w2).
  destruct (stream_type_cases w1) as [Hs1 | [Hs1 | Hs1]];
    assert (Hs2 := Hs1); rewrite Hs in Hs2.
  - apply nothing_twice; now apply emit_none.
  - unfold same_line_but_stamp.
    rewrite (emit_console c w1 He1 Hs1), (emit_console c w2 He2 Hs2).
    destruct (to_cerr c).
    + exists "", (joined (console_args c)), "", "", "".
      repeat split; try (left; split; reflexivity); same_bytes.
    + exists (joined (console_args c)), "", "", "", "".
      repeat split; try (left; split; reflexivity); same_bytes.
  - specialize (Hopen Hs1).
    destruct (log_file_opens_dec w1) as [Ho1 | Ho1].
    2:{ apply nothing_twice; apply emit_unwritable; tauto. }
    assert (Ho2 : log_file_opens w2) by tauto.
    assert (Hc : console ≠ file) by discriminate.
    unfold same_line_but_stamp.
    rewrite (emit_file c w1 He1 Hs1 Ho1), (emit_file c w2 He2 Hs2 Ho2).
    destruct c as [args | fn args | f fn line args | fn].
    + exists "", "", "", "", (joined args).
      repeat split; try (left; split; reflexivity); try congruence; same_bytes.
    + exists "", "", (text_of (CurrentTime w1)), (text_of (CurrentTime w2)),
        (" " +:+ joined (file_tail (CallDebug fn args))).
      repeat split; try (right; split; reflexivity); try congruence;
        try (unfold CurrentTime; now intros ->); same_bytes.
    + exists "", "", (text_of (CurrentTime w1)), (text_of (CurrentTime w2)),
        (" " +:+ joined (file_tail (CallError f fn line args))).
      repeat split; try (right; split; reflexivity); try congruence;
        try (unfold CurrentTime; now intros ->); same_bytes.
    + exists "", "", (text_of (CurrentTime w1)), (text_of (CurrentTime w2)),
        (" " +:+ joined (file_tail (CallSuccess fn))).
      repeat split; try (right; split; reflexivity); try congruence;
        try (unfold CurrentTime; now intros ->); same_bytes.
Qed.

Lemma repeated_emit_same_line_witness :
  stream_type_ fresh_file = stream_type_ fresh_file_later
  ∧ log_type_ fresh_file = log_type_ fresh_file_later
  ∧ (stream_type_ fresh_file = file ->
     (log_file_opens fresh_file <-> log_file_opens fresh_file_later))
  ∧ same_line_but_stamp (CallDebug "main" [Arg "x"]) fresh_file fresh_file_later.
Proof.
  assert (H : stream_type_ fresh_file = file ->
              (log_file_opens fresh_file <-> log_file_opens fresh_file_later))
    by (intros _; split; intros _;
        [exact fresh_file_later_opens | exact fresh_file_opens]).
  split; [reflexivity|]. split; [reflexivity|]. split; [exact H|].
  exact (repeated_emit_same_line (CallDebug "main" [Arg "x"])
           fresh_file fresh_file_later eq_refl eq_refl H).
Defined.

(** C8 as worded fails on the file sink: with the same sink and the same
    active categories, the call writes its line where [log.txt] opens and
    nothing where it does not. *)
Lemma repeated_emit_differs_when_locked :
  stream_type_ fresh_file = stream_type_ fresh_locked
  ∧ log_type_ fresh_file = log_type_ fresh_locked
  ∧ ¬ same_line_but_stamp (CallInfo [Arg "a"]) fresh_file fresh_locked.
Proof.
  split; [reflexivity|]. split; [reflexivity|].
  intros (o & e & s1 & s2 & r & _ & _ & (Hf1 & Hf2) & Hst & _ & _).
  assert (Hw : file_bytes log_file_name (emit (CallInfo [Arg "a"]) fresh_file)
               = "a " +:+ newline) by (vm_compute; reflexivity).
  assert (Hn : emit (CallInfo [Arg "a"]) fresh_locked = fresh_locked)
    by (apply emit_unwritable; [reflexivity | exact fresh_locked_stuck]).
  assert (H0 : file_bytes log_file_name fresh_file = "") by reflexivity.
  assert (H1 : file_bytes log_file_name fresh_locked = "") by reflexivity.
  rewrite Hw, H0 in Hf1. rewrite Hn, H1 in Hf2. simpl in Hf1, Hf2.
  destruct Hst as [[-> ->] | [_ ->]].
  - simpl in Hf2. subst r. discriminate Hf1.
  - vm_compute in Hf2. discriminate Hf2.
Qed.

(** ** Further properties of the emit calls *)

Lemma joined_body (args : list Item) : ∃ body, joined args = body +:+ newline.
Proof.
  induction args as [|i args [body IH]]; simpl.
  - now exists "".
  - exists (item_text i +:+ " " +:+ body). rewrite IH.
    change (String " " (body +:+ newline)) with (" " +:+ body +:+ newline).
    now rewrite !append_assoc.
Qed.

Lemma emit_cases (c : Call) (w : World) :
  emit c w = w
  ∨ (∃ body, emit c w = set_cout (cout w +:+ body +:+ newline) w)
  ∨ (∃ body, emit c w = set_cerr (cerr w +:+ body +:+ newline) w)
  ∨ (∃ body,
       emit c w
       = set_disk
           (<[ log_file_name :=
                 file_bytes log_file_name w +:+ body +:+ newline ]> (disk w)) w).
Proof.
  destruct (enabled_dec (category c) w) as [He | He];
    [| left; now apply emit_blocked].
  destruct (stream_type_cases w) as [Hs | [Hs | Hs]].
  - left. now apply emit_none.
  - rewrite (emit_console c w He Hs).
    destruct (joined_body (console_args c)) as [body ->].
    destruct (to_cerr c); eauto.
  - destruct (log_file_opens_dec w) as [Ho | Ho].
    + rewrite (emit_file c w He Hs Ho).
      destruct (joined_body (file_args c w)) as [body ->]. eauto 6.
    + left. now apply emit_unwritable.
Qed.

Lemma emit_frame_fields (c : Call) (w : World) :
  stream_type_ (emit c w) = stream_type_ w
  ∧ log_type_ (emit c w) = log_type_ w
  ∧ unwritable (emit c w) = unwritable w
  ∧ clock (emit c w) = clock w.
Proof.
  destruct (emit_shape c w) as [H | [[o H] | [[e H] | [d H]]]];
    rewrite H; repeat split; reflexivity.
Qed.

(** An emit call only ever adds to the end of what is there, and to one
    place at most: standard output, standard error or the log file. *)
Theorem emit_append_only (c : Call) (w : World) :
  ∃ o e f : string,
    cout (emit c w) = cout w +:+ o
    ∧ cerr (emit c w) = cerr w +:+ e
    ∧ file_bytes log_file_name (emit c w) = file_bytes log_file_name w +:+ f
    ∧ ((o = "" ∧ e = "") ∨ (o = "" ∧ f = "") ∨ (e = "" ∧ f = "")).
Proof.
  destruct (emit_cases c w) as [H | [[b H] | [[b H] | [b H]]]]; rewrite H.
  - exists "", "", "". rewrite !append_nil_r. tauto.
  - exists (b +:+ newline), "", "". unfold_world. rewrite !append_nil_r. tauto.
  - exists "", (b +:+ newline), "". unfold_world. rewrite !append_nil_r. tauto.
  - exists "", "", (b +:+ newline). rewrite file_bytes_written.
    unfold_world. rewrite !append_nil_r. tauto.
Qed.

(** An emit call touches no file but [log.txt], changes no path's
    permissions and does not move the clock. *)
Theorem emit_other_files_untouched (c : Call) (w : World) :
  (∀ name, name ≠ log_file_name -> disk (emit c w) !! name = disk w !! name)
  ∧ unwritable (emit c w) = unwritable w
  ∧ clock (emit c w) = clock w.
Proof.
  split; [| split; apply emit_frame_fields].
  intros name Hn.
  destruct (emit_cases c w) as [H | [[b H] | [[b H] | [b H]]]]; rewrite H;
    unfold_world; try reflexivity.
  now rewrite lookup_insert_ne.
Qed.

(** ** Newlines *)

Lemma occurrences_app (c : ascii) (a b : string) :
  occurrences c (a +:+ b) = (occurrences c a + occurrences c b)%nat.
Proof.
  induction a as [|x a IH]; simpl; [reflexivity|]. rewrite IH.
  destruct (bool_decide (x = c)); lia.
Qed.

Lemma occurrences_joined (args : list Item) :
  occurrences LF (joined args)
  = (sum_list (map (fun i => occurrences LF (item_text i)) args) + 1)%nat.
Proof.
  induction args as [|i args IH]; [reflexivity|].
  cbn [joined map sum_list].
  rewrite occurrences_app.
  change (" " +:+ joined args) with (String " " (joined args)).
  cbn [occurrences]. rewrite IH.
  rewrite bool_decide_eq_false_2 by discriminate. unfold id. lia.
Qed.

(** [LogRecursive] adds one newline of its own, the last character, and
    otherwise passes on whatever newlines the items contain: the stream
    holds as many newlines as before, plus those of the items, plus one. *)
Theorem LogRecursive_newlines (args : list Item) (s : ostream) (d : string) :
  occurrences LF (LogRecursive s args)
  = (occurrences LF s
     + sum_list (map (fun i => occurrences LF (item_text i)) args) + 1)%nat
  ∧ occurrences LF (of_data (LogRecursive (mk_ofstream true d) args))
    = (occurrences LF d
       + sum_list (map (fun i => occurrences LF (item_text i)) args) + 1)%nat
  ∧ (∃ body, LogRecursive s args = s +:+ body +:+ newline)
  ∧ (∃ body,
       of_data (LogRecursive (mk_ofstream true d) args)
       = d +:+ body +:+ newline).
Proof.
  rewrite LogRecursive_ostream, LogRecursive_ofstream. cbn [of_data].
  rewrite !occurrences_app, occurrences_joined.
  split; [lia|]. split; [lia|].
  destruct (joined_body args) as [body ->]. split; now exists body.
Qed.

(** ** The macros on the console *)

(** With the console sink, each macro writes its tag in colour, then what it
    knows of the call site, then the very line [LOG_INFO] writes for the
    same arguments: [LOG_DEBUG] the function; [LOG_ERROR] the file, the
    line number and the function, in this order and on standard error;
    [LOG_SUCCESS] the function and no arguments at all. *)
Theorem macros_console_lines (site : CallSite) (args : list Item) (w : World) :
  stream_type_ w = console ->
  (enabled info w -> cout (LOG_INFO args w) = cout w +:+ joined args)
  ∧ (enabled debug w ->
     cout (LOG_DEBUG site args w)
     = cout w +:+ debug_type_color +:+ " " +:+ __PRETTY_FUNCTION__ site
         +:+ " : " +:+ joined args)
  ∧ (enabled error w ->
     cerr (LOG_ERROR site args w)
     = cerr w +:+ error_type_color +:+ " " +:+ __FILE__ site +:+ " : "
         +:+ pretty (__LINE__ site) +:+ " : " +:+ __PRETTY_FUNCTION__ site
         +:+ " : " +:+ joined args)
  ∧ (enabled success w ->
     cout (LOG_SUCCESS site w)
     = cout w +:+ success_type_color +:+ " " +:+ __PRETTY_FUNCTION__ site
         +:+ " " +:+ newline).
Proof.
  intros Hs. split; [|split; [|split]]; intros He.
  - change (LOG_INFO args w) with (emit (CallInfo args) w).
    rewrite (emit_console (CallInfo args) w He Hs). reflexivity.
  - change (LOG_DEBUG site args w)
      with (emit (CallDebug (__PRETTY_FUNCTION__ site) args) w).
    rewrite (emit_console (CallDebug (__PRETTY_FUNCTION__ site) args) w He Hs).
    reflexivity.
  - change (LOG_ERROR site args w)
      with (emit (CallError (__FILE__ site) (__PRETTY_FUNCTION__ site)
                    (__LINE__ site) args) w).
    rewrite (emit_console
               (CallError (__FILE__ site) (__PRETTY_FUNCTION__ site)
                  (__LINE__ site) args) w He Hs).
    reflexivity.
  - change (LOG_SUCCESS site w)
      with (emit (CallSuccess (__PRETTY_FUNCTION__ site)) w).
    rewrite (emit_console (CallSuccess (__PRETTY_FUNCTION__ site)) w He Hs).
    reflexivity.
Qed.

Lemma macros_console_lines_witness :
  stream_type_ fresh = console
  ∧ cerr (LOG_ERROR (mk_CallSite "x.cpp" "int main()" 10) [Arg "boom"; Arg (-3)]
            fresh)
    = error_type_color +:+ " x.cpp : 10 : int main() : boom -3 " +:+ newline.
Proof.
  split; [reflexivity|].
  destruct (macros_console_lines (mk_CallSite "x.cpp" "int main()" 10)
              [Arg "boom"; Arg (-3)] fresh eq_refl) as (_ & _ & He & _).
  rewrite (He (fresh_enabled error)). vm_compute. reflexivity.
Defined.

(** ** The two sinks side by side *)

(** The same call sent to the console and to the file.  The colour tag is
    the plain tag between two escape sequences.  After the tag a Debug or
    Success line reads the same in both sinks, the file line having the
    timestamp in front; an Info line is the same in both.  An Error line
    names the file of the call site on the console only: after the tag the
    console line has the file name and a colon that the file line lacks,
    the file line going on with the line number at once. *)
Theorem sinks_side_by_side (w : World) :
  log_file_opens w ->
  let stamp := text_of (CurrentTime w) in
  let old := file_bytes log_file_name w in
  (debug_type_color = String ESC "[33m" +:+ debug_type +:+ String ESC "[0m"
   ∧ error_type_color = String ESC "[31m" +:+ error_type +:+ String ESC "[0m"
   ∧ success_type_color
     = String ESC "[32m" +:+ success_type +:+ String ESC "[0m")
  ∧ (∀ args, enabled info w ->
       ∃ line,
         cout (LogInfo args (SetStream console w)) = cout w +:+ line
         ∧ file_bytes log_file_name (LogInfo args (SetStream file w))
           = old +:+ line)
  ∧ (∀ fn args, enabled debug w ->
       ∃ rest,
         cout (LogDebug fn args (SetStream console w))
         = cout w +:+ debug_type_color +:+ rest
         ∧ file_bytes log_file_name (LogDebug fn args (SetStream file w))
           = old +:+ stamp +:+ " " +:+ debug_type +:+ rest)
  ∧ (∀ fn, enabled success w ->
       ∃ rest,
         cout (LogSuccess fn (SetStream console w))
         = cout w +:+ success_type_color +:+ rest
         ∧ file_bytes log_file_name (LogSuccess fn (SetStream file w))
           = old +:+ stamp +:+ " " +:+ success_type +:+ rest)
  ∧ (∀ f fn line args, enabled error w ->
       ∃ rest,
         cerr (LogError f fn line args (SetStream console w))
         = cerr w +:+ error_type_color +:+ " " +:+ f +:+ " :" +:+ rest
         ∧ file_bytes log_file_name (LogError f fn line args (SetStream file w))
           = old +:+ stamp +:+ " " +:+ error_type +:+ rest
         ∧ ∃ tail, rest = " " +:+ pretty line +:+ tail).
Proof.
  intros Ho stamp old.
  assert (Hc : stream_type_ (SetStream console w) = console) by reflexivity.
  assert (Hf : stream_type_ (SetStream file w) = file) by reflexivity.
  assert (Ho' : log_file_opens (SetStream file w)) by exact Ho.
  split; [repeat split|]. split; [|split; [|split]].
  - intros args He. exists (joined args).
    change (LogInfo args (SetStream console w))
      with (emit (CallInfo args) (SetStream console w)).
    change (LogInfo args (SetStream file w))
      with (emit (CallInfo args) (SetStream file w)).
    rewrite (emit_console (CallInfo args) (SetStream console w) He Hc),
      (emit_file (CallInfo args) (SetStream file w) He Hf Ho'), file_bytes_written.
    split; reflexivity.
  - intros fn args He. exists (" " +:+ fn +:+ " : " +:+ joined args).
    change (LogDebug fn args (SetStream console w))
      with (emit (CallDebug fn args) (SetStream console w)).
    change (LogDebug fn args (SetStream file w))
      with (emit (CallDebug fn args) (SetStream file w)).
    rewrite (emit_console (CallDebug fn args) (SetStream console w) He Hc),
      (emit_file (CallDebug fn args) (SetStream file w) He Hf Ho'), file_bytes_written.
    split; reflexivity.
  - intros fn He. exists (" " +:+ fn +:+ " " +:+ newline).
    change (LogSuccess fn (SetStream console w))
      with (emit (CallSuccess fn) (SetStream console w)).
    change (LogSuccess fn (SetStream file w))
      with (emit (CallSuccess fn) (SetStream file w)).
    rewrite (emit_console (CallSuccess fn) (SetStream console w) He Hc),
      (emit_file (CallSuccess fn) (SetStream file w) He Hf Ho'), file_bytes_written.
    split; reflexivity.
  - intros f fn line args He.
    exists (" " +:+ pretty line +:+ " : " +:+ fn +:+ " : " +:+ joined args).
    change (LogError f fn line args (SetStream console w))
      with (emit (CallError f fn line args) (SetStream console w)).
    change (LogError f fn line args (SetStream file w))
      with (emit (CallError f fn line args) (SetStream file w)).
    rewrite (emit_console (CallError f fn line args) (SetStream console w) He Hc),
      (emit_file (CallError f fn line args) (SetStream file w) He Hf Ho'), file_bytes_written.
    split; [reflexivity|]. split; [reflexivity|].
    now exists (" : " +:+ fn +:+ " : " +:+ joined args).
Qed.

Lemma sinks_side_by_side_witness :
  log_file_opens fresh
  ∧ ∃ rest,
      cerr (LogError "x.cpp" "main" 10 [Arg "boom"] (SetStream console fresh))
      = cerr fresh +:+ error_type_color +:+ " " +:+ "x.cpp" +:+ " :" +:+ rest
      ∧ file_bytes log_file_name
          (LogError "x.cpp" "main" 10 [Arg "boom"] (SetStream file fresh))
        = file_bytes log_file_name fresh +:+ text_of (CurrentTime fresh)
            +:+ " " +:+ error_type +:+ rest
      ∧ ∃ tail, rest = " " +:+ pretty 10 +:+ tail.
Proof.
  split; [exact fresh_file_opens|].
  destruct (sinks_side_by_side fresh fresh_file_opens) as (_ & _ & _ & _ & He).
  exact (He "x.cpp" "main" 10 [Arg "boom"] (fresh_enabled error)).
Defined.

(** ** Calls one after another *)

Lemma enabled_same_log_type (k : LogType) (w w' : World) :
  log_type_ w' = log_type_ w -> (enabled k w' <-> enabled k w).
Proof. unfold enabled. now intros ->. Qed.




Lemma to_cerr_category (c : Call) : to_cerr c = true <-> category c = error.
Proof. destruct c; cbn; split; intros H; try reflexivity; discriminate H. Qed.

(** On the console an Error call and a call of another category do not
    disturb each other: made in either order they leave the same world,
    one having written to standard error, the other to standard output. *)
Theorem console_error_commutes (c1 c2 : Call) (w : World) :
  stream_type_ w = console -> category c1 = error -> category c2 ≠ error ->
  emit c1 (emit c2 w) = emit c2 (emit c1 w).
Proof.
  intros Hs H1 H2.
  assert (T1 : to_cerr c1 = true) by now apply to_cerr_category.
  assert (T2 : to_cerr c2 = false).
  { destruct (to_cerr c2) eqn:E; [|reflexivity].
    now apply to_cerr_category in E. }
  destruct (emit_frame_fields c1 w) as (Hs1 & Hl1 & _).
  destruct (emit_frame_fields c2 w) as (Hs2 & Hl2 & _).
  destruct (enabled_dec (category c1) w) as [E1 | E1].
  2:{ rewrite (emit_blocked c1 w E1). apply emit_blocked.
      now rewrite (enabled_same_log_type _ w _ Hl2). }
  destruct (enabled_dec (category c2) w) as [E2 | E2].
  2:{ rewrite (emit_blocked c2 w E2). symmetry. apply emit_blocked.
      now rewrite (enabled_same_log_type _ w _ Hl1). }
  rewrite (emit_console c2 w E2 Hs), (emit_console c1 w E1 Hs), T1, T2.
  rewrite (emit_console c1 (set_cout _ w) E1 Hs),
    (emit_console c2 (set_cerr _ w) E2 Hs), T1, T2.
  reflexivity.
Qed.

Lemma console_error_commutes_witness :
  stream_type_ fresh = console
  ∧ category (CallError "x.cpp" "main" 10 [Arg "boom"]) = error
  ∧ category (CallInfo [Arg "a"; Arg 1]) ≠ error
  ∧ emit (CallError "x.cpp" "main" 10 [Arg "boom"])
      (emit (CallInfo [Arg "a"; Arg 1]) fresh)
    = emit (CallInfo [Arg "a"; Arg 1])
        (emit (CallError "x.cpp" "main" 10 [Arg "boom"]) fresh).
Proof.
  assert (Hne : category (CallInfo [Arg "a"; Arg 1]) ≠ error) by discriminate.
  split; [reflexivity|]. split; [reflexivity|]. split; [exact Hne|].
  exact (console_error_commutes (CallError "x.cpp" "main" 10 [Arg "boom"])
           (CallInfo [Arg "a"; Arg 1]) fresh eq_refl eq_refl Hne).
Defined.

(** ** The list given to [SetLogType] *)

(** Only the elements of the list count: order and repetitions make no
    difference to the world [SetLogType] leaves. *)
Theorem SetLogType_same_elements (l1 l2 : list LogType) (w : World) :
  (∀ k, k ∈ l1 <-> k ∈ l2) -> SetLogType l1 w = SetLogType l2 w.
Proof.
  intros H. unfold SetLogType, set_log_type. f_equal.
  rewrite !SetLogType_loop. f_equal.
  apply set_eq. intros k. rewrite !elem_of_list_to_set. apply H.
Qed.

Lemma SetLogType_same_elements_witness :
  (∀ k, k ∈ [info; error; info] <-> k ∈ [error; info])
  ∧ SetLogType [info; error; info] fresh = SetLogType [error; info] fresh.
Proof.
  assert (H : ∀ k, k ∈ [info; error; info] <-> k ∈ [error; info]).
  { intros k. rewrite !elem_of_cons, !elem_of_nil. tauto. }
  split; [exact H|].
  exact (SetLogType_same_elements [info; error; info] [error; info] fresh H).
Defined.

Lemma produces_output_needs (c : Call) (w : World) :
  produces_output c w ->
  enabled (category c) w
  ∧ (stream_type_ w = console ∨ (stream_type_ w = file ∧ log_file_opens w)).
Proof.
  intros Hout.
  destruct (enabled_dec (category c) w) as [He | He];
    [| now apply no_output_unchanged in Hout; [|apply emit_blocked]].
  split; [exact He|].
  destruct (stream_type_cases w) as [Hs | [Hs | Hs]]; [| now left |].
  - now apply no_output_unchanged in Hout; [|apply emit_none].
  - destruct (log_file_opens_dec w) as [Ho | Ho]; [now right|].
    now apply no_output_unchanged in Hout; [|apply emit_unwritable].
Qed.

(** Listing more categories never silences a call: a call that produces
    output after [SetLogType(L)] also does after [SetLogType(L')] when [L']
    has every element of [L]. *)
Theorem SetLogType_more_is_louder (c : Call) (l l' : list LogType) (w : World) :
  (∀ k, k ∈ l -> k ∈ l') ->
  produces_output c (SetLogType l w) -> produces_output c (SetLogType l' w).
Proof.
  intros Hsub Hout.
  apply produces_output_needs in Hout as [He Hsink].
  apply enabled_after_SetLogType in He.
  assert (He' : enabled (category c) (SetLogType l' w)).
  { apply enabled_after_SetLogType. destruct He; [left | right]; auto. }
  destruct Hsink as [Hs | [Hs Ho]].
  - now apply console_produces_output.
  - now apply file_produces_output.
Qed.

Lemma SetLogType_more_is_louder_witness :
  (∀ k, k ∈ [debug] -> k ∈ [info; debug])
  ∧ produces_output (CallDebug "main" [Arg "x"]) (SetLogType [debug] fresh)
  ∧ produces_output (CallDebug "main" [Arg "x"])
      (SetLogType [info; debug] fresh).
Proof.
  assert (H : ∀ k, k ∈ [debug] -> k ∈ [info; debug]).
  { intros k Hk. apply elem_of_cons. right. exact Hk. }
  assert (Hout : produces_output (CallDebug "main" [Arg "x"])
                   (SetLogType [debug] fresh)).
  { apply console_produces_output; [|reflexivity].
    apply enabled_after_SetLogType. left. apply list_elem_of_singleton.
    reflexivity. }
  split; [exact H|]. split; [exact Hout|].
  exact (SetLogType_more_is_louder (CallDebug "main" [Arg "x"])
           [debug] [info; debug] fresh H Hout).
Defined.

(** ** Whole runs *)

Lemma step_appends (op : Op) (w : World) :
  ∃ o e f : string,
    cout (step w op) = cout w +:+ o
    ∧ cerr (step w op) = cerr w +:+ e
    ∧ file_bytes log_file_name (step w op)
      = file_bytes log_file_name w +:+ f
    ∧ (∀ name, name ≠ log_file_name ->
         disk (step w op) !! name = disk w !! name)
    ∧ unwritable (step w op) = unwritable w.
Proof.
  destruct op as [s | l | c | t]; cbn [step].
  1, 2, 4: exists "", "", ""; unfold set_clock; unfold_world;
    rewrite !append_nil_r; repeat split; reflexivity.
  destruct (emit_cases c w) as [H | [[b H] | [[b H] | [b H]]]]; rewrite H.
  - exists "", "", "". rewrite !append_nil_r. repeat split; reflexivity.
  - exists (b +:+ newline), "", "". unfold_world. rewrite !append_nil_r.
    repeat split; reflexivity.
  - exists "", (b +:+ newline), "". unfold_world. rewrite !append_nil_r.
    repeat split; reflexivity.
  - exists "", "", (b +:+ newline). rewrite file_bytes_written.
    unfold_world. rewrite !append_nil_r. repeat split; try reflexivity.
    intros name Hn. now rewrite lookup_insert_ne.
Qed.

(** Whatever a program does through the class, in whatever order and at
    whatever times, what standard output, standard error and [log.txt] held
    before is still there, at the front; every other file is as it was and
    no permission has changed. *)
Theorem run_append_only (ops : list Op) (w : World) :
  ∃ o e f : string,
    cout (run ops w) = cout w +:+ o
    ∧ cerr (run ops w) = cerr w +:+ e
    ∧ file_bytes log_file_name (run ops w)
      = file_bytes log_file_name w +:+ f
    ∧ (∀ name, name ≠ log_file_name ->
         disk (run ops w) !! name = disk w !! name)
    ∧ unwritable (run ops w) = unwritable w.
Proof.
  revert w. induction ops as [|op ops IH]; intros w.
  - exists "", "", "". cbn. rewrite !append_nil_r. repeat split; reflexivity.
  - change (run (op :: ops) w) with (run ops (step w op)).
    destruct (IH (step w op)) as (o2 & e2 & f2 & Ho2 & He2 & Hf2 & Hd2 & Hu2).
    destruct (step_appends op w) as (o1 & e1 & f1 & Ho1 & He1 & Hf1 & Hd1 & Hu1).
    exists (o1 +:+ o2), (e1 +:+ e2), (f1 +:+ f2).
    rewrite Ho2, He2, Hf2, Hu2, Ho1, He1, Hf1, Hu1, !append_assoc.
    repeat split; try reflexivity.
    intros name Hn. now rewrite Hd2, Hd1.
Qed.

Lemma complete_lines_app (s body : string) :
  complete_lines (s +:+ body +:+ newline).
Proof. right. exists (s +:+ body). now rewrite append_assoc. Qed.

Lemma step_complete_lines (op : Op) (w : World) :
  complete_lines (cout w) ∧ complete_lines (cerr w)
  ∧ complete_lines (file_bytes log_file_name w) ->
  complete_lines (cout (step w op)) ∧ complete_lines (cerr (step w op))
  ∧ complete_lines (file_bytes log_file_name (step w op)).
Proof.
  intros (Ho & He & Hf). destruct op as [s | l | c | t]; cbn [step].
  1, 2, 4: repeat split; assumption.
  destruct (emit_cases c w) as [H | [[b H] | [[b H] | [b H]]]]; rewrite H.
  - repeat split; assumption.
  - repeat split; try assumption. apply complete_lines_app.
  - repeat split; try assumption. apply complete_lines_app.
  - rewrite file_bytes_written.
    repeat split; try assumption. apply complete_lines_app.
Qed.

(** If standard output, standard error and [log.txt] hold complete lines
    to begin with, they do after every run: the class never leaves a line
    unfinished. *)
Theorem run_complete_lines (ops : list Op) (w : World) :
  complete_lines (cout w) ∧ complete_lines (cerr w)
  ∧ complete_lines (file_bytes log_file_name w) ->
  complete_lines (cout (run ops w)) ∧ complete_lines (cerr (run ops w))
  ∧ complete_lines (file_bytes log_file_name (run ops w)).
Proof.
  revert w. induction ops as [|op ops IH]; intros w H; [exact H|].
  change (run (op :: ops) w) with (run ops (step w op)).
  now apply IH, step_complete_lines.
Qed.

Lemma run_complete_lines_witness :
  (complete_lines (cout fresh) ∧ complete_lines (cerr fresh)
   ∧ complete_lines (file_bytes log_file_name fresh))
  ∧ complete_lines
      (file_bytes log_file_name
         (run [OpSetStream file; OpEmit (CallInfo [Arg "a"]);
               OpTick 1700000060; OpEmit (CallSuccess "main")] fresh)).
Proof.
  assert (H : complete_lines (cout fresh) ∧ complete_lines (cerr fresh)
              ∧ complete_lines (file_bytes log_file_name fresh))
    by (repeat split; left; reflexivity).
  split; [exact H|].
  exact (proj2 (proj2 (run_complete_lines
                         [OpSetStream file; OpEmit (CallInfo [Arg "a"]);
                          OpTick 1700000060; OpEmit (CallSuccess "main")]
                         fresh H))).
Defined.

(** ** The width of the timestamp *)

Lemma has_layout_length (layout s : string) :
  has_layout layout s = true -> String.length s = String.length layout.
Proof.
  revert s. induction layout as [|p layout IH]; intros [|c s]; simpl;
    try discriminate; [reflexivity|].
  intros H. apply andb_true_iff in H as [_ H]. now rewrite (IH s H).
Qed.

Lemma has_layout_lacks (x : ascii) (layout s : string) :
  has_layout layout s = true ->
  is_digit x = false -> occurrences x layout = 0%nat ->
  occurrences x s = 0%nat.
Proof.
  revert s. induction layout as [|p layout IH]; intros [|c s]; simpl;
    try discriminate; [reflexivity|].
  intros H Hx Hl. apply andb_true_iff in H as [Hc H].
  assert (Hl' : occurrences x layout = 0%nat) by lia.
  rewrite (IH s H Hx Hl').
  destruct (bool_decide (c = x)) eqn:E; [|reflexivity].
  apply bool_decide_eq_true in E. subst c.
  destruct (is_upper p); [congruence|].
  apply bool_decide_eq_true in Hc. subst p.
  rewrite bool_decide_eq_true_2 in Hl by reflexivity. lia.
Qed.

(** From the epoch to the end of the year 9999 the timestamp is always 21
    characters wide and has neither a newline nor an escape character in
    it, so in a file line the tag starts at a fixed column. *)
Theorem CurrentTime_width (w : World) :
  four_digit_year (clock w) ->
  String.length (text_of (CurrentTime w)) = 21%nat
  ∧ occurrences LF (text_of (CurrentTime w)) = 0%nat
  ∧ occurrences ESC (text_of (CurrentTime w)) = 0%nat.
Proof.
  intros Ht. apply CurrentTime_layout in Ht.
  split; [exact (has_layout_length _ _ Ht)|].
  split; eapply has_layout_lacks; try exact Ht; reflexivity.
Qed.

Lemma CurrentTime_width_witness :
  four_digit_year (clock fresh_file_later)
  ∧ String.length (text_of (CurrentTime fresh_file_later)) = 21%nat.
Proof.
  assert (Ht : four_digit_year (clock fresh_file_later))
    by (unfold four_digit_year; simpl; lia).
  split; [exact Ht|].
  exact (proj1 (CurrentTime_width fresh_file_later Ht)).
Defined.
